(** * libtiutils/Semaphore.cpp: the counting-semaphore wrapper

    A shallow embedding of [android::Semaphore] (libtiutils/Semaphore.cpp).
    The class owns one field, the pointer [mSemaphore], and every method is
    a NULL check followed by at most two calls into the C library.  The
    methods are therefore embedded as programs over the native calls they
    make (a free monad over the calls of <semaphore.h> and <stdlib.h>); a
    separate, executable model of the C library runs these programs in a
    world holding the heap, the clock and errno, and records the calls. *)

From Stdlib Require Import ZArith Lia List.
From stdpp Require Import base option gmap.
Import ListNotations.

Local Open Scope Z_scope.

(** ** Machine integers *)

(** [int] and, on the 32-bit ARM targets of OMAP3, [long] and [time_t] are
    32-bit two's complement integers.  They are carried as [Z]; every
    arithmetic result is brought back into range by [wrap_int]. *)
Definition INT_MIN : Z := -2147483648.
Definition INT_MAX : Z := 2147483647.

Definition wrap_int (z : Z) : Z := (z + 2147483648) mod 4294967296 - 2147483648.

Definition is_int (z : Z) : Prop := INT_MIN <= z <= INT_MAX.

(** [long] has the width of [int] on this target. *)
Definition wrap_long (z : Z) : Z := wrap_int z.

(** ** Data *)

(** [struct timespec]. *)
Record timespec : Type := { tv_sec : Z; tv_nsec : Z }.

(** A non-NULL [sem_t*]. *)
Abbreviation addr := positive.

(** The object: its only data member is [sem_t* mSemaphore]; [None] is NULL. *)
Record Semaphore : Type := { mSemaphore : option addr }.

(** ** The native calls the file makes *)

(** One constructor per C library function called in Semaphore.cpp, indexed
    by the type of what the caller reads back.  [malloc_sem] is
    [malloc(sizeof(sem_t))].  [sem_getvalue] answers the content of the
    caller's [val] after the call, since the code discards the return code
    of [sem_getvalue] and reads [val]. *)
Inductive nativeE : Type -> Type :=
| malloc_sem : nativeE (option addr)
| free_sem (p : addr) : nativeE unit
| sem_init (p : addr) (pshared : Z) (value : Z) : nativeE Z
| sem_destroy (p : addr) : nativeE Z
| sem_wait (p : addr) : nativeE Z
| sem_post (p : addr) : nativeE Z
| sem_getvalue (p : addr) : nativeE Z
| sem_timedwait (p : addr) (abs_timeout : timespec) : nativeE Z.

(** Programs over the native calls. *)
Inductive prog (A : Type) : Type :=
| Ret (a : A)
| Vis {X : Type} (e : nativeE X) (k : X -> prog A).

Arguments Ret {A} a.
Arguments Vis {A X} e k.

Fixpoint bind {A B : Type} (m : prog A) (f : A -> prog B) : prog B :=
  match m with
  | Ret a => f a
  | Vis e k => Vis e (fun x => bind (k x) f)
  end.

Definition call {X : Type} (e : nativeE X) : prog X := Vis e Ret.

#[global] Instance prog_ret : MRet prog := @Ret.
#[global] Instance prog_bind : MBind prog := fun A B f m => bind m f.

(** ** The platform *)

(** What Semaphore.cpp takes from headers that are not part of the file:
    the [status_t] codes of utils/Errors.h, [SEM_VALUE_MAX] of <limits.h>,
    and [ErrorUtils::posixToAndroidError] of ErrorUtils.h.  They are
    parameters of the whole development, and so is one choice that POSIX
    leaves to the C library: whether [sem_timedwait] checks the nanoseconds
    of the deadline before it tries to take a unit
    ([timedwait_validates_first]) or only when it would have to wait. *)
Class Platform : Type := {
  NO_ERROR : Z;
  BAD_VALUE : Z;
  NO_MEMORY : Z;
  SEM_VALUE_MAX : Z;
  posixToAndroidError : Z -> Z;
  timedwait_validates_first : bool
}.

Section Methods.

Context `{Platform}.

(** [Semaphore::Semaphore()] *)
Definition Semaphore_ctor : Semaphore := {| mSemaphore := None |}.

(** [Semaphore::~Semaphore()] *)
Definition Semaphore_dtor (this : Semaphore) : prog unit :=
  match mSemaphore this with
  | Some p =>
      _ ← call (sem_destroy p);
      call (free_sem p)
  | None => mret tt
  end.

(** [status_t Semaphore::Create(int count)] *)
Definition Create (count : Z) (this : Semaphore) : prog (Z * Semaphore) :=
  if count <? 0 then mret (BAD_VALUE, this)
  else
    m ← call malloc_sem;
    let this := {| mSemaphore := m |} in
    match mSemaphore this with
    | None => mret (NO_MEMORY, this)
    | Some p =>
        rc ← call (sem_init p 0 count);
        mret (posixToAndroidError rc, this)
    end.

(** [status_t Semaphore::Wait()] *)
Definition Wait (this : Semaphore) : prog (Z * Semaphore) :=
  match mSemaphore this with
  | None => mret (BAD_VALUE, this)
  | Some p =>
      rc ← call (sem_wait p);
      mret (posixToAndroidError rc, this)
  end.

(** [status_t Semaphore::Signal()] *)
Definition Signal (this : Semaphore) : prog (Z * Semaphore) :=
  match mSemaphore this with
  | None => mret (BAD_VALUE, this)
  | Some p =>
      rc ← call (sem_post p);
      mret (posixToAndroidError rc, this)
  end.

(** [int Semaphore::Count()] *)
Definition Count (this : Semaphore) : prog (Z * Semaphore) :=
  match mSemaphore this with
  | None => mret (BAD_VALUE, this)
  | Some p =>
      val ← call (sem_getvalue p);
      mret (val, this)
  end.

(** The [timeSpec] that [WaitTimeout] fills in: lines 178 and 179. *)
Definition timeSpec_of (timeoutMicroSecs : Z) : timespec :=
  let sec := wrap_long (wrap_int (Z.quot timeoutMicroSecs 1000000)) in
  {| tv_sec := sec;
     tv_nsec :=
       wrap_long
         (wrap_long (wrap_long (timeoutMicroSecs - wrap_long (sec * 1000000)) * 1000)) |}.

(** [status_t Semaphore::WaitTimeout(int timeoutMicroSecs)] *)
Definition WaitTimeout (timeoutMicroSecs : Z) (this : Semaphore)
  : prog (Z * Semaphore) :=
  match mSemaphore this with
  | None => mret (BAD_VALUE, this)
  | Some p =>
      let timeSpec := timeSpec_of timeoutMicroSecs in
      rc ← call (sem_timedwait p timeSpec);
      mret (posixToAndroidError rc, this)
  end.

End Methods.

(** ** The C library *)

(** A block obtained from [malloc(sizeof(sem_t))]: still uninitialised, or
    holding a semaphore that [sem_init] has set up, with its value. *)
Inductive cell : Type :=
| Raw
| Sem (value : Z).

(** The state the native calls act on.  [mem_left] is the number of
    allocations that will still succeed, [now] is CLOCK_REALTIME, and
    [pending_signal] says that a signal handler is about to run in the
    calling thread. *)
Record world : Type := {
  heap : gmap addr cell;
  mem_left : nat;
  now : timespec;
  errno : Z;
  pending_signal : bool
}.

Definition EINTR : Z := 4.
Definition ENOMEM : Z := 12.
Definition EINVAL : Z := 22.
Definition EOVERFLOW : Z := 75.
Definition ETIMEDOUT : Z := 110.

Definition set_errno (e : Z) (w : world) : world :=
  {| heap := heap w; mem_left := mem_left w; now := now w; errno := e;
     pending_signal := pending_signal w |}.

Definition set_heap (h : gmap addr cell) (w : world) : world :=
  {| heap := h; mem_left := mem_left w; now := now w; errno := errno w;
     pending_signal := pending_signal w |}.

Definition set_mem_left (n : nat) (w : world) : world :=
  {| heap := heap w; mem_left := n; now := now w; errno := errno w;
     pending_signal := pending_signal w |}.

Definition set_now (t : timespec) (w : world) : world :=
  {| heap := heap w; mem_left := mem_left w; now := t; errno := errno w;
     pending_signal := pending_signal w |}.

Definition take_signal (w : world) : world :=
  {| heap := heap w; mem_left := mem_left w; now := now w; errno := EINTR;
     pending_signal := false |}.

(** [a] is not later than [b]. *)
Definition timespec_leb (a b : timespec) : bool :=
  (tv_sec a <? tv_sec b) || ((tv_sec a =? tv_sec b) && (tv_nsec a <=? tv_nsec b)).

Definition valid_nsec (t : timespec) : bool :=
  (0 <=? tv_nsec t) && (tv_nsec t <? 1000000000).

(** What a native call does to the calling thread: it returns [x] in a new
    world, it never returns (the only thread is blocked), or its behaviour
    is undefined (a pointer that is not a live block, a semaphore that was
    not initialised). *)
Inductive reply (X : Type) : Type :=
| Answer (x : X) (w : world)
| Block
| Undef.

Arguments Answer {X} x w.
Arguments Block {X}.
Arguments Undef {X}.

Section Native.

Context `{Platform}.

(** POSIX semantics of the calls, for one thread.  Failing calls return -1
    and set errno.  [sem_timedwait] takes an absolute CLOCK_REALTIME
    deadline: with the value at zero it fails with ETIMEDOUT at once when
    the deadline is not in the future, and otherwise sleeps until it.  A
    deadline whose nanoseconds are out of range is refused with EINVAL,
    before the attempt to take a unit or after it, as the platform says. *)
Definition native {X : Type} (e : nativeE X) (w : world) : reply X :=
  match e in nativeE X return reply X with
  | malloc_sem =>
      match mem_left w with
      | O => Answer None (set_errno ENOMEM w)
      | S n =>
          let p := fresh (dom (heap w)) in
          Answer (Some p) (set_mem_left n (set_heap (<[p := Raw]> (heap w)) w))
      end
  | free_sem p =>
      match heap w !! p with
      | Some _ => Answer tt (set_heap (delete p (heap w)) w)
      | None => Undef
      end
  | sem_init p _ value =>
      match heap w !! p with
      | Some Raw =>
          if (0 <=? value) && (value <=? SEM_VALUE_MAX)
          then Answer 0 (set_heap (<[p := Sem value]> (heap w)) w)
          else Answer (-1) (set_errno EINVAL w)
      | _ => Undef
      end
  | sem_destroy p =>
      match heap w !! p with
      | Some (Sem _) => Answer 0 (set_heap (<[p := Raw]> (heap w)) w)
      | _ => Undef
      end
  | sem_wait p =>
      match heap w !! p with
      | Some (Sem v) =>
          if 0 <? v then Answer 0 (set_heap (<[p := Sem (v - 1)]> (heap w)) w)
          else if pending_signal w then Answer (-1) (take_signal w)
          else Block
      | _ => Undef
      end
  | sem_post p =>
      match heap w !! p with
      | Some (Sem v) =>
          if v <? SEM_VALUE_MAX
          then Answer 0 (set_heap (<[p := Sem (v + 1)]> (heap w)) w)
          else Answer (-1) (set_errno EOVERFLOW w)
      | _ => Undef
      end
  | sem_getvalue p =>
      match heap w !! p with
      | Some (Sem v) => Answer v w
      | _ => Undef
      end
  | sem_timedwait p abs_timeout =>
      match heap w !! p with
      | Some (Sem v) =>
          if timedwait_validates_first && negb (valid_nsec abs_timeout)
          then Answer (-1) (set_errno EINVAL w)
          else if 0 <? v then Answer 0 (set_heap (<[p := Sem (v - 1)]> (heap w)) w)
          else if negb (valid_nsec abs_timeout) then Answer (-1) (set_errno EINVAL w)
          else if timespec_leb abs_timeout (now w) then Answer (-1) (set_errno ETIMEDOUT w)
          else if pending_signal w then Answer (-1) (take_signal w)
          else Answer (-1) (set_errno ETIMEDOUT (set_now abs_timeout w))
      | _ => Undef
      end
  end.

(** A native call, without the type of its answer. *)
Inductive native_call : Type :=
| Called {X : Type} (e : nativeE X).

Inductive outcome (A : Type) : Type :=
| Returns (a : A) (w : world)
| Blocks
| Undefined.

Arguments Returns {A} a w.
Arguments Blocks {A}.
Arguments Undefined {A}.

(** Running a program: the native calls made, in order, and how it ends. *)
Fixpoint run {A : Type} (m : prog A) (w : world) : list native_call * outcome A :=
  match m with
  | Ret a => ([], Returns a w)
  | Vis e k =>
      match native e w with
      | Answer x w' => let '(tr, o) := run (k x) w' in (Called e :: tr, o)
      | Block => ([Called e], Blocks)
      | Undef => ([Called e], Undefined)
      end
  end.

(** The live value of the semaphore behind the handle, when there is one. *)
Definition sem_value (w : world) (this : Semaphore) : option Z :=
  match mSemaphore this with
  | Some p => match heap w !! p with Some (Sem v) => Some v | _ => None end
  | None => None
  end.

End Native.

Arguments Returns {A} a w.
Arguments Blocks {A}.
Arguments Undefined {A}.

(** ** Running method calls in sequence *)

(** The public operations of the class. *)
Inductive op : Type :=
| OpCreate (count : Z)
| OpWait
| OpSignal
| OpCount
| OpWaitTimeout (timeoutMicroSecs : Z).

Section Reachability.

Context `{Platform}.

Definition perform (o : op) : Semaphore -> prog (Z * Semaphore) :=
  match o with
  | OpCreate count => Create count
  | OpWait => Wait
  | OpSignal => Signal
  | OpCount => Count
  | OpWaitTimeout t => WaitTimeout t
  end.

(** The object and world states a single thread can reach from a freshly
    constructed object in world [w0] by calls that return. *)
Inductive reachable (w0 : world) : Semaphore -> world -> Prop :=
| reach_ctor : reachable w0 Semaphore_ctor w0
| reach_call this w o tr r this' w' :
    reachable w0 this w ->
    run (perform o this) w = (tr, Returns (r, this') w') ->
    reachable w0 this' w'.

(** The invariant of the data model: the handle is absent, or it points to
    a semaphore that [sem_init] has set up. *)
Definition handle_ok (w : world) (this : Semaphore) : Prop :=
  match mSemaphore this with
  | None => True
  | Some p => exists v, heap w !! p = Some (Sem v)
  end.

(** A caller making the calls [ops] one after the other on the same object;
    the statuses are collected in order. *)
Fixpoint script (ops : list op) (this : Semaphore) : prog (list Z * Semaphore) :=
  match ops with
  | [] => mret ([], this)
  | o :: ops' =>
      r ← perform o this;
      rs ← script ops' r.2;
      mret (r.1 :: rs.1, rs.2)
  end.

End Reachability.

(** ** The deadline the specification asks for *)

(** The absolute CLOCK_REALTIME time that lies [timeoutMicroSecs]
    microseconds after [t0], as seconds and a nanosecond remainder.  This
    definition follows the specification, not the code; it is what
    [timeSpec_of] is compared with. *)
Definition deadline_after (t0 : timespec) (timeoutMicroSecs : Z) : timespec :=
  let total := tv_sec t0 * 1000000000 + tv_nsec t0 + timeoutMicroSecs * 1000 in
  {| tv_sec := total / 1000000000; tv_nsec := total mod 1000000000 |}.

(** ** A concrete platform *)

Definition UNKNOWN_ERROR : Z := -2147483648.

(** Modelled from the spec: [ErrorUtils::posixToAndroidError] is declared in
    ErrorUtils.h, which is not among the sources; the specification calls
    it a pure function from a native failure code to an error kind and
    leaves its table out.  This stand-in, used only to run the methods on
    concrete inputs, sends 0 to [NO_ERROR] and every other code to
    [UNKNOWN_ERROR]. *)
Definition translate_or_unknown (error : Z) : Z :=
  if error =? 0 then 0 else UNKNOWN_ERROR.

(** Android on 32-bit ARM: the codes of utils/Errors.h ([BAD_VALUE] is
    -EINVAL, [NO_MEMORY] is -ENOMEM) and bionic's [SEM_VALUE_MAX]. *)
Definition android_arm : Platform :=
  {| NO_ERROR := 0;
     BAD_VALUE := -22;
     NO_MEMORY := -12;
     SEM_VALUE_MAX := 1073741823;
     posixToAndroidError := translate_or_unknown;
     timedwait_validates_first := false |}.

(** The same codes over a C library whose [SEM_VALUE_MAX] is [INT_MAX] and
    whose [sem_timedwait] checks the deadline first. *)
Definition validating_host : Platform :=
  {| NO_ERROR := 0;
     BAD_VALUE := -22;
     NO_MEMORY := -12;
     SEM_VALUE_MAX := 2147483647;
     posixToAndroidError := translate_or_unknown;
     timedwait_validates_first := true |}.

(** A world with an empty heap, room for two allocations, and the clock at
    1300000000 s. *)
Definition boot : world :=
  {| heap := ∅;
     mem_left := 2;
     now := {| tv_sec := 1300000000; tv_nsec := 0 |};
     errno := 0;
     pending_signal := false |}.

(** A ready object whose semaphore, at address 1, has value [v]. *)
Definition ready_at_1 : Semaphore := {| mSemaphore := Some 1%positive |}.

Definition world_with (v : Z) : world :=
  set_heap {[ 1%positive := Sem v ]} boot.

(** The world after [Create(0x40000000)] from [boot]: the block at address
    1 is allocated and holds no semaphore. *)
Definition half_built : world :=
  set_errno EINVAL (set_mem_left 1 (set_heap {[ 1%positive := Raw ]} boot)).

(** A world with two semaphores, at addresses 1 and 2. *)
Definition two_sems : world :=
  set_heap (<[2%positive := Sem 7]> {[ 1%positive := Sem 5 ]}) boot.

(** ** Proof steps *)

(** Case analysis on what the native call inside a run did: on the block
    behind the pointer, then on each test of the C library model. *)
Ltac split_native H :=
  cbn in H;
  repeat match type of H with
         | context [match heap ?w !! ?p with _ => _ end] =>
             let Hv := fresh "Hv" in
             destruct (heap w !! p) as [[| ?v] |] eqn:Hv
         | context [if ?c then _ else _] =>
             let Hc := fresh "Hc" in destruct c eqn:Hc
         end;
  try discriminate H.

(** ** Machine arithmetic *)

Lemma wrap_int_id (z : Z) : is_int z -> wrap_int z = z.
Proof.
  unfold is_int, INT_MIN, INT_MAX, wrap_int. intros Hz.
  rewrite Z.mod_small; lia.
Qed.

Lemma quot_million_bounds (t : Z) :
  is_int t ->
  -2147 <= Z.quot t 1000000 <= 2147 /\
  -1000000 < t - Z.quot t 1000000 * 1000000 < 1000000.
Proof.
  unfold is_int, INT_MIN, INT_MAX. intros Ht.
  Z.quot_rem_to_equations. lia.
Qed.

(** No operation of lines 178 and 179 leaves the 32-bit range. *)
Lemma timeSpec_of_exact (t : Z) :
  is_int t ->
  timeSpec_of t =
    {| tv_sec := Z.quot t 1000000;
       tv_nsec := (t - Z.quot t 1000000 * 1000000) * 1000 |}.
Proof.
  intros Ht. destruct (quot_million_bounds t Ht) as [Hq Hr].
  unfold timeSpec_of, wrap_long.
  assert (Hi : forall z, -2147483648 <= z <= 2147483647 -> wrap_int z = z).
  { intros z Hz. apply wrap_int_id. exact Hz. }
  rewrite !(Hi (Z.quot t 1000000)) by lia.
  rewrite (Hi (Z.quot t 1000000 * 1000000)) by lia.
  rewrite (Hi (t - Z.quot t 1000000 * 1000000)) by lia.
  rewrite !(Hi ((t - Z.quot t 1000000 * 1000000) * 1000)) by lia.
  reflexivity.
Qed.

Example timeSpec_of_one_and_a_half_seconds :
  timeSpec_of 1500000 = {| tv_sec := 1; tv_nsec := 500000000 |}.
Proof. reflexivity. Qed.

Example timeSpec_of_negative :
  timeSpec_of (-1500000) = {| tv_sec := -1; tv_nsec := -500000000 |}.
Proof. reflexivity. Qed.

(** ** Properties of the methods *)

Section Properties.

Context {platform : Platform}.

(** Every guarded method returns [BAD_VALUE] at once on a NULL handle. *)
Lemma guard_BAD_VALUE (this : Semaphore) (t : Z) :
  mSemaphore this = None ->
  Wait this = Ret (BAD_VALUE, this) /\
  Signal this = Ret (BAD_VALUE, this) /\
  Count this = Ret (BAD_VALUE, this) /\
  WaitTimeout t this = Ret (BAD_VALUE, this).
Proof.
  intros Hnull. unfold Wait, Signal, Count, WaitTimeout.
  rewrite Hnull. repeat split.
Qed.

(** X17: on an object whose handle is NULL, [Wait], [Signal] and
    [WaitTimeout] are the program that returns [BAD_VALUE] (the code's
    value for the invalid-state error); run in any world they return it
    without blocking, with no native call made and the world unchanged. *)
Theorem not_ready_returns_at_once (this : Semaphore) (t : Z) (w : world) :
  mSemaphore this = None ->
  (Wait this = Ret (BAD_VALUE, this) /\
   Signal this = Ret (BAD_VALUE, this) /\
   WaitTimeout t this = Ret (BAD_VALUE, this)) /\
  run (Wait this) w = ([], Returns (BAD_VALUE, this) w) /\
  run (Signal this) w = ([], Returns (BAD_VALUE, this) w) /\
  run (WaitTimeout t this) w = ([], Returns (BAD_VALUE, this) w).
Proof.
  intros Hnull.
  destruct (guard_BAD_VALUE this t Hnull) as (Hw & Hs & _ & Ht).
  rewrite Hw, Hs, Ht. repeat split.
Qed.

(** C5: for every negative count, [Create] returns [BAD_VALUE] (the code's
    value for an invalid argument) with no native call, so nothing is
    allocated or initialised and the object and the world are unchanged;
    on an object that was uninitialised, [Count] then returns the
    [BAD_VALUE] sentinel, again with no native call. *)
Theorem Create_negative_count (count : Z) (this : Semaphore) (w : world) :
  count < 0 ->
  mSemaphore this = None ->
  Create count this = Ret (BAD_VALUE, this) /\
  run (Create count this) w = ([], Returns (BAD_VALUE, this) w) /\
  run (r ← Create count this; Count r.2) w = ([], Returns (BAD_VALUE, this) w).
Proof.
  intros Hneg Hnull.
  assert (Hc : Create count this = Ret (BAD_VALUE, this)).
  { unfold Create. destruct (Z.ltb_spec count 0); [reflexivity | lia]. }
  rewrite Hc. repeat split.
  cbn. destruct (guard_BAD_VALUE this 0 Hnull) as (_ & _ & Hk & _).
  rewrite Hk. reflexivity.
Qed.

(** X18: on an object whose handle is NULL, [Count] returns [BAD_VALUE]
    as a plain integer, the type of a count, with no native call; on a
    ready object it makes one [sem_getvalue] call and returns the value the
    native semaphore holds at that moment, so that after the native value
    changes to [v'] the same object reports [v']. *)
Theorem Count_sentinel_or_live (this : Semaphore) (w : world) (p : addr) (v v' : Z) :
  (mSemaphore this = None ->
   run (Count this) w = ([], Returns (BAD_VALUE, this) w)) /\
  (mSemaphore this = Some p ->
   heap w !! p = Some (Sem v) ->
   run (Count this) w = ([Called (sem_getvalue p)], Returns (v, this) w) /\
   let w' := set_heap (<[p := Sem v']> (heap w)) w in
   run (Count this) w' = ([Called (sem_getvalue p)], Returns (v', this) w')).
Proof.
  split.
  - intros Hnull. destruct (guard_BAD_VALUE this 0 Hnull) as (_ & _ & Hk & _).
    rewrite Hk. reflexivity.
  - intros Hp Hv. unfold Count. rewrite Hp. cbn. rewrite Hv. split; [reflexivity |].
    rewrite lookup_insert_eq. reflexivity.
Qed.

(** C9: for every [int] timeout, the [timespec] built by [WaitTimeout] has
    [tv_sec] the truncated quotient by 1000000 and [tv_nsec] the remainder
    times 1000, so seconds and nanoseconds add up to the timeout exactly;
    whatever the sign of the timeout, the method on a non-NULL handle is
    one [sem_timedwait] call with that [timespec] followed by the
    translation of its return code: in any world where that call returns
    [rc], the method returns [posixToAndroidError rc] after that single
    call.  For a negative timeout both fields are non-positive. *)
Theorem WaitTimeout_timespec (t : Z) (this : Semaphore) (p : addr) :
  is_int t ->
  mSemaphore this = Some p ->
  let ts := timeSpec_of t in
  tv_sec ts = Z.quot t 1000000 /\
  tv_nsec ts = (t - tv_sec ts * 1000000) * 1000 /\
  tv_sec ts * 1000000000 + tv_nsec ts = t * 1000 /\
  WaitTimeout t this =
    Vis (sem_timedwait p ts) (fun rc => Ret (posixToAndroidError rc, this)) /\
  (forall w rc w',
     native (sem_timedwait p ts) w = Answer rc w' ->
     run (WaitTimeout t this) w =
       ([Called (sem_timedwait p ts)], Returns (posixToAndroidError rc, this) w')) /\
  (t < 0 -> tv_sec ts <= 0 /\ tv_nsec ts <= 0).
Proof.
  intros Ht Hp ts.
  assert (Hprog : WaitTimeout t this =
    Vis (sem_timedwait p ts) (fun rc => Ret (posixToAndroidError rc, this))).
  { unfold WaitTimeout. rewrite Hp. reflexivity. }
  assert (Hrun : forall w rc w',
     native (sem_timedwait p ts) w = Answer rc w' ->
     run (WaitTimeout t this) w =
       ([Called (sem_timedwait p ts)], Returns (posixToAndroidError rc, this) w')).
  { intros w rc w' Hn. rewrite Hprog. cbn [run]. rewrite Hn. reflexivity. }
  subst ts. rewrite (timeSpec_of_exact t Ht) in *. cbn [tv_sec tv_nsec].
  destruct (quot_million_bounds t Ht) as [Hq Hr].
  repeat split; try lia; try assumption.
  Z.quot_rem_to_equations. lia.
Qed.

(** *** The allocation and initialisation path of [Create] *)

Lemma fresh_block_unmapped (w : world) : heap w !! fresh (dom (heap w)) = None.
Proof. apply not_elem_of_dom. apply is_fresh. Qed.

(** [Create] with a non-negative count, when the allocation succeeds, as
    one equation: the handle is assigned before [sem_init] runs and is
    what the object keeps, whatever [sem_init] returns. *)
Lemma run_Create_allocated (count : Z) (this : Semaphore) (w : world) (n : nat) :
  0 <= count ->
  mem_left w = S n ->
  let p := fresh (dom (heap w)) in
  let w1 := set_mem_left n (set_heap (<[p := Raw]> (heap w)) w) in
  run (Create count this) w =
    if count <=? SEM_VALUE_MAX
    then ([Called malloc_sem; Called (sem_init p 0 count)],
          Returns (posixToAndroidError 0, {| mSemaphore := Some p |})
            (set_heap (<[p := Sem count]> (heap w1)) w1))
    else ([Called malloc_sem; Called (sem_init p 0 count)],
          Returns (posixToAndroidError (-1), {| mSemaphore := Some p |})
            (set_errno EINVAL w1)).
Proof.
  intros Hc Hm p w1. unfold Create.
  destruct (Z.ltb_spec count 0) as [Hlt | _]; [lia |].
  cbn. rewrite Hm. cbn. fold p. rewrite lookup_insert_eq.
  destruct (Z.leb_spec 0 count) as [_ | Hlt]; [| lia].
  cbn. destruct (count <=? SEM_VALUE_MAX); reflexivity.
Qed.

Lemma run_Create_no_memory (count : Z) (this : Semaphore) (w : world) :
  0 <= count ->
  mem_left w = O ->
  run (Create count this) w =
    ([Called malloc_sem],
     Returns (NO_MEMORY, {| mSemaphore := None |}) (set_errno ENOMEM w)).
Proof.
  intros Hc Hm. unfold Create.
  destruct (Z.ltb_spec count 0) as [Hlt | _]; [lia |].
  cbn. rewrite Hm. reflexivity.
Qed.

(** C2: when [count] is non-negative, the allocation succeeds and
    [sem_init] fails (the count exceeds [SEM_VALUE_MAX]), [Create] returns
    the translation of the return code of [sem_init]; the claim's other
    two parts do not hold of the code: the calls made are [malloc] and
    [sem_init] only, with no [free], the handle field holds the address of
    the block, and the block is still allocated and uninitialised. *)
Theorem Create_sem_init_failure (count : Z) (this : Semaphore) (w : world) (n : nat) :
  0 <= count ->
  SEM_VALUE_MAX < count ->
  mem_left w = S n ->
  exists p w',
    run (Create count this) w =
      ([Called malloc_sem; Called (sem_init p 0 count)],
       Returns (posixToAndroidError (-1), {| mSemaphore := Some p |}) w') /\
    heap w !! p = None /\
    heap w' !! p = Some Raw.
Proof.
  intros Hc Hmax Hm.
  exists (fresh (dom (heap w))). eexists. split; [| split].
  - rewrite (run_Create_allocated count this w n Hc Hm).
    destruct (Z.leb_spec count SEM_VALUE_MAX); [lia | reflexivity].
  - apply fresh_block_unmapped.
  - cbn. apply lookup_insert_eq.
Qed.

(** *** The methods on a ready object *)

Lemma sem_value_lookup (w : world) (this : Semaphore) (p : addr) (v : Z) :
  mSemaphore this = Some p ->
  heap w !! p = Some (Sem v) ->
  sem_value w this = Some v.
Proof. intros Hp Hv. unfold sem_value. rewrite Hp, Hv. reflexivity. Qed.

(** [Wait] with the value above zero: one [sem_wait], which takes a unit. *)
Lemma run_Wait_available (this : Semaphore) (p : addr) (v : Z) (w : world) :
  mSemaphore this = Some p ->
  heap w !! p = Some (Sem v) ->
  0 < v ->
  run (Wait this) w =
    ([Called (sem_wait p)],
     Returns (posixToAndroidError 0, this)
       (set_heap (<[p := Sem (v - 1)]> (heap w)) w)).
Proof.
  intros Hp Hv Hpos. unfold Wait. rewrite Hp. cbn. rewrite Hv.
  destruct (Z.ltb_spec 0 v); [reflexivity | lia].
Qed.

(** [Signal] below [SEM_VALUE_MAX]: one [sem_post], which adds a unit. *)
Lemma run_Signal_below_max (this : Semaphore) (p : addr) (v : Z) (w : world) :
  mSemaphore this = Some p ->
  heap w !! p = Some (Sem v) ->
  v < SEM_VALUE_MAX ->
  run (Signal this) w =
    ([Called (sem_post p)],
     Returns (posixToAndroidError 0, this)
       (set_heap (<[p := Sem (v + 1)]> (heap w)) w)).
Proof.
  intros Hp Hv Hmax. unfold Signal. rewrite Hp. cbn. rewrite Hv.
  destruct (Z.ltb_spec v SEM_VALUE_MAX); [reflexivity | lia].
Qed.

(** C6: for every count [N >= 0], when [Create N] returns [NO_ERROR], on a
    platform whose translation gives [NO_ERROR] for the native success code
    only, the [Count] call that follows makes one [sem_getvalue] call and
    returns [N]. *)
Theorem Create_then_Count (N : Z) (this this' : Semaphore) (w w' : world)
    (tr : list native_call) :
  0 <= N ->
  NO_MEMORY <> NO_ERROR ->
  (forall rc, posixToAndroidError rc = NO_ERROR -> rc = 0) ->
  run (Create N this) w = (tr, Returns (NO_ERROR, this') w') ->
  exists p,
    mSemaphore this' = Some p /\
    run (Count this') w' = ([Called (sem_getvalue p)], Returns (N, this') w').
Proof.
  intros HN Hmem Htr Hrun.
  destruct (mem_left w) as [| n] eqn:Hm.
  - rewrite (run_Create_no_memory N this w HN Hm) in Hrun.
    injection Hrun as _ Hst _ _. contradiction.
  - rewrite (run_Create_allocated N this w n HN Hm) in Hrun.
    destruct (N <=? SEM_VALUE_MAX).
    + injection Hrun as _ _ Hthis Hw. subst this' w'.
      eexists. split; [reflexivity |].
      unfold Count. cbn. rewrite lookup_insert_eq. reflexivity.
    + injection Hrun as _ Hst _ _. apply Htr in Hst. discriminate.
Qed.

(** C7: in one thread, in a world where the allocation succeeds, on a
    platform with [SEM_VALUE_MAX >= 1] whose translation of the native
    success code is [NO_ERROR]: [Create 1] succeeds and the value is 1,
    [Wait] succeeds and the value is 0, [Signal] succeeds and the value is
    1, and the second [Wait] succeeds and the value is 0 again. *)
Theorem round_trip (w : world) (n : nat) :
  mem_left w = S n ->
  1 <= SEM_VALUE_MAX ->
  posixToAndroidError 0 = NO_ERROR ->
  exists this p w1 w2 w3 w4,
    run (Create 1 Semaphore_ctor) w =
      ([Called malloc_sem; Called (sem_init p 0 1)], Returns (NO_ERROR, this) w1) /\
    sem_value w1 this = Some 1 /\
    run (Wait this) w1 = ([Called (sem_wait p)], Returns (NO_ERROR, this) w2) /\
    sem_value w2 this = Some 0 /\
    run (Signal this) w2 = ([Called (sem_post p)], Returns (NO_ERROR, this) w3) /\
    sem_value w3 this = Some 1 /\
    run (Wait this) w3 = ([Called (sem_wait p)], Returns (NO_ERROR, this) w4) /\
    sem_value w4 this = Some 0.
Proof.
  intros Hm Hmax Hok.
  set (p := fresh (dom (heap w))).
  set (this := {| mSemaphore := Some p |}).
  set (w0 := set_mem_left n (set_heap (<[p := Raw]> (heap w)) w)).
  set (w1 := set_heap (<[p := Sem 1]> (heap w0)) w0).
  set (w2 := set_heap (<[p := Sem (1 - 1)]> (heap w1)) w1).
  set (w3 := set_heap (<[p := Sem (0 + 1)]> (heap w2)) w2).
  set (w4 := set_heap (<[p := Sem (1 - 1)]> (heap w3)) w3).
  assert (Hthis : mSemaphore this = Some p) by reflexivity.
  assert (H1 : heap w1 !! p = Some (Sem 1)) by apply lookup_insert_eq.
  assert (H2 : heap w2 !! p = Some (Sem 0)) by apply lookup_insert_eq.
  assert (H3 : heap w3 !! p = Some (Sem 1)) by apply lookup_insert_eq.
  assert (H4 : heap w4 !! p = Some (Sem 0)) by apply lookup_insert_eq.
  exists this, p, w1, w2, w3, w4.
  rewrite <- Hok.
  split; [| split; [| split; [| split; [| split; [| split; [| split]]]]]].
  - rewrite (run_Create_allocated 1 Semaphore_ctor w n ltac:(lia) Hm).
    destruct (Z.leb_spec 1 SEM_VALUE_MAX) as [_ | Hlt]; [reflexivity | lia].
  - apply (sem_value_lookup w1 this p 1 Hthis H1).
  - apply (run_Wait_available this p 1 w1 Hthis H1). lia.
  - apply (sem_value_lookup w2 this p 0 Hthis H2).
  - apply (run_Signal_below_max this p 0 w2 Hthis H2). lia.
  - apply (sem_value_lookup w3 this p 1 Hthis H3).
  - apply (run_Wait_available this p 1 w3 Hthis H3). lia.
  - apply (sem_value_lookup w4 this p 0 Hthis H4).
Qed.

(** *** The deadline of [WaitTimeout] *)

Lemma deadline_after_not_earlier (t0 : timespec) (t : Z) :
  valid_nsec t0 = true ->
  0 <= t ->
  tv_sec t0 <= tv_sec (deadline_after t0 t).
Proof.
  unfold valid_nsec, deadline_after. intros Hv Ht. cbn [tv_sec].
  apply andb_true_iff in Hv as [Hlo _]. apply Z.leb_le in Hlo.
  apply Z.div_le_lower_bound; lia.
Qed.

(** C1: the claim does not hold of the code.  [WaitTimeout] reads no clock:
    what it passes to [sem_timedwait] is the relative duration split into
    seconds and nanoseconds.  For every non-negative [int] timeout and
    every clock later than 2147 s after the Epoch, that [timespec] lies
    before the current time while the deadline (current time plus the
    duration) does not, so the two differ; on a semaphore at zero the
    native wait then fails with ETIMEDOUT at once, the clock unchanged. *)
Theorem WaitTimeout_passes_relative_time (t : Z) (this : Semaphore) (p : addr)
    (w : world) :
  is_int t ->
  0 <= t ->
  mSemaphore this = Some p ->
  heap w !! p = Some (Sem 0) ->
  valid_nsec (now w) = true ->
  2147 < tv_sec (now w) ->
  run (WaitTimeout t this) w =
    ([Called (sem_timedwait p (timeSpec_of t))],
     Returns (posixToAndroidError (-1), this) (set_errno ETIMEDOUT w)) /\
  tv_sec (timeSpec_of t) < tv_sec (now w) <= tv_sec (deadline_after (now w) t) /\
  timeSpec_of t <> deadline_after (now w) t.
Proof.
  intros Hint Ht Hp Hv Hnow Hclock.
  pose proof (deadline_after_not_earlier (now w) t Hnow Ht) as Hdl.
  pose proof (timeSpec_of_exact t Hint) as Hts.
  destruct (quot_million_bounds t Hint) as [Hq Hr].
  assert (Hrem : 0 <= t - Z.quot t 1000000 * 1000000).
  { Z.quot_rem_to_equations. lia. }
  assert (Hsec : tv_sec (timeSpec_of t) < tv_sec (now w)).
  { rewrite Hts. cbn [tv_sec]. lia. }
  split; [| split; [lia |]].
  - unfold WaitTimeout. rewrite Hp. cbn. rewrite Hv. cbn.
    replace (valid_nsec (timeSpec_of t)) with true.
    2:{ symmetry. rewrite Hts. unfold valid_nsec. cbn [tv_nsec].
        apply andb_true_iff. split; [apply Z.leb_le | apply Z.ltb_lt]; lia. }
    replace (timespec_leb (timeSpec_of t) (now w)) with true.
    2:{ symmetry. unfold timespec_leb. apply orb_true_iff. left.
        apply Z.ltb_lt. exact Hsec. }
    cbn. rewrite andb_false_r. reflexivity.
  - intros Heq. rewrite Heq in Hsec. lia.
Qed.

(** *** The handle invariant *)

(** Every call that returns keeps the handle invariant, except a [Create]
    whose count exceeds [SEM_VALUE_MAX]. *)
Lemma handle_ok_preserved (o : op) (this this' : Semaphore) (w w' : world)
    (tr : list native_call) (r : Z) :
  handle_ok w this ->
  (forall count, o = OpCreate count -> count <= SEM_VALUE_MAX) ->
  run (perform o this) w = (tr, Returns (r, this') w') ->
  handle_ok w' this'.
Proof.
  intros Hok Hcount Hrun. destruct o as [count | | | | t]; cbn [perform] in Hrun.
  - specialize (Hcount count eq_refl).
    destruct (Z.ltb_spec count 0) as [Hneg | Hpos].
    + unfold Create in Hrun. apply Z.ltb_lt in Hneg. rewrite Hneg in Hrun.
      injection Hrun as _ _ <- <-. exact Hok.
    + destruct (mem_left w) as [| n] eqn:Hm.
      * rewrite (run_Create_no_memory count this w Hpos Hm) in Hrun.
        injection Hrun as _ _ <- _. exact I.
      * rewrite (run_Create_allocated count this w n Hpos Hm) in Hrun.
        destruct (Z.leb_spec count SEM_VALUE_MAX); [| lia].
        injection Hrun as _ _ <- <-. exists count. apply lookup_insert_eq.
  - unfold Wait, handle_ok in *. destruct (mSemaphore this) as [p |] eqn:Hp.
    + cbn in Hrun. destruct Hok as [v Hv]. rewrite Hv in Hrun.
      destruct (0 <? v); [| destruct (pending_signal w)];
        try discriminate; injection Hrun as _ _ <- <-; rewrite Hp.
      * eexists. apply lookup_insert_eq.
      * exists v. exact Hv.
    + injection Hrun as _ _ <- <-. rewrite Hp. exact I.
  - unfold Signal, handle_ok in *. destruct (mSemaphore this) as [p |] eqn:Hp.
    + cbn in Hrun. destruct Hok as [v Hv]. rewrite Hv in Hrun.
      destruct (v <? SEM_VALUE_MAX); injection Hrun as _ _ <- <-; rewrite Hp.
      * eexists. apply lookup_insert_eq.
      * exists v. exact Hv.
    + injection Hrun as _ _ <- <-. rewrite Hp. exact I.
  - unfold Count, handle_ok in *. destruct (mSemaphore this) as [p |] eqn:Hp.
    + cbn in Hrun. destruct Hok as [v Hv]. rewrite Hv in Hrun.
      injection Hrun as _ _ <- <-. rewrite Hp. exists v. exact Hv.
    + injection Hrun as _ _ <- <-. rewrite Hp. exact I.
  - unfold WaitTimeout, handle_ok in *. destruct (mSemaphore this) as [p |] eqn:Hp.
    + cbn in Hrun. destruct Hok as [v Hv]. rewrite Hv in Hrun.
      destruct (timedwait_validates_first && negb (valid_nsec (timeSpec_of t)));
        [| destruct (0 <? v);
           [| destruct (negb (valid_nsec (timeSpec_of t)));
              [| destruct (timespec_leb (timeSpec_of t) (now w));
                 [| destruct (pending_signal w)]]]];
        injection Hrun as _ _ <- <-; rewrite Hp;
        first [ eexists; apply lookup_insert_eq | exists v; exact Hv ].
    + injection Hrun as _ _ <- <-. rewrite Hp. exact I.
Qed.

End Properties.

(** ** The life cycle of the object *)

Section Lifecycle.

Context {platform : Platform}.

Lemma set_heap_same (w : world) : set_heap (heap w) w = w.
Proof. destruct w. reflexivity. Qed.

(** Running a sequence: the calls of the first part, then those of the
    second, unless the first part does not return. *)
Lemma run_bind {A B : Type} (m : prog A) (f : A -> prog B) (w : world) :
  run (bind m f) w =
    match run m w with
    | (tr, Returns a w') => let '(tr', o) := run (f a) w' in (tr ++ tr', o)
    | (tr, Blocks) => (tr, Blocks)
    | (tr, Undefined) => (tr, Undefined)
    end.
Proof.
  revert w. induction m as [a | X e k IH]; intros w; cbn [bind run].
  - destruct (run (f a) w); reflexivity.
  - destruct (native e w) as [x w' | |]; try reflexivity.
    rewrite IH. destruct (run (k x) w') as [tr [a w'' | |]]; try reflexivity.
    destruct (run (f a) w''); reflexivity.
Qed.

(** The destructor on a ready object: [sem_destroy], then [free]. *)
Lemma run_dtor_ready (this : Semaphore) (p : addr) (v : Z) (w : world) :
  mSemaphore this = Some p ->
  heap w !! p = Some (Sem v) ->
  run (Semaphore_dtor this) w =
    ([Called (sem_destroy p); Called (free_sem p)],
     Returns tt (set_heap (delete p (heap w)) w)).
Proof.
  intros Hp Hv. unfold Semaphore_dtor. rewrite Hp. cbn. rewrite Hv. cbn.
  rewrite lookup_insert_eq. cbn. rewrite delete_insert_eq. reflexivity.
Qed.

(** X1: The destructor releases exactly the block of its own handle: on an
    object without a handle it makes no native call; on a ready object it
    calls [sem_destroy] and [free] in that order, after which the block is
    gone and every other block is as before. *)
Theorem dtor_releases_own_block (this : Semaphore) (w : world) (p : addr) (v : Z) :
  (mSemaphore this = None ->
   run (Semaphore_dtor this) w = ([], Returns tt w)) /\
  (mSemaphore this = Some p ->
   heap w !! p = Some (Sem v) ->
   exists w',
     run (Semaphore_dtor this) w =
       ([Called (sem_destroy p); Called (free_sem p)], Returns tt w') /\
     heap w' !! p = None /\
     (forall q, q <> p -> heap w' !! q = heap w !! q) /\
     mem_left w' = mem_left w).
Proof.
  split.
  - intros Hnull. unfold Semaphore_dtor. rewrite Hnull. reflexivity.
  - intros Hp Hv. eexists. split; [apply (run_dtor_ready this p v w Hp Hv) |].
    cbn. split; [apply lookup_delete_eq | split; [| reflexivity]].
    intros q Hq. apply lookup_delete_ne. congruence.
Qed.

(** X2: A successful [Create] followed by the destructor gives back what was
    allocated: the heap is the one before [Create]. *)
Theorem Create_then_dtor_restores_heap (count : Z) (this : Semaphore) (w : world)
    (n : nat) :
  0 <= count <= SEM_VALUE_MAX ->
  mem_left w = S n ->
  exists p this' w1 w2,
    run (Create count this) w =
      ([Called malloc_sem; Called (sem_init p 0 count)],
       Returns (posixToAndroidError 0, this') w1) /\
    run (Semaphore_dtor this') w1 =
      ([Called (sem_destroy p); Called (free_sem p)], Returns tt w2) /\
    heap w2 = heap w.
Proof.
  intros [Hlo Hhi] Hm.
  pose proof (run_Create_allocated count this w n Hlo Hm) as Hc. cbn zeta in Hc.
  destruct (Z.leb_spec count SEM_VALUE_MAX) as [_ | Hlt]; [| lia].
  do 4 eexists. split; [exact Hc | split].
  - apply (run_dtor_ready _ (fresh (dom (heap w))) count); [reflexivity |].
    cbn. apply lookup_insert_eq.
  - cbn. rewrite !delete_insert_eq. apply delete_id, fresh_block_unmapped.
Qed.

(** X3: When [malloc] fails, [Create] returns [NO_MEMORY] after that one call,
    without calling [sem_init]; the handle is NULL afterwards whatever it
    was before, and the heap is untouched, so a semaphore the object held
    before stays allocated, out of reach of the destructor. *)
Theorem Create_out_of_memory (count : Z) (this : Semaphore) (w : world) :
  0 <= count ->
  mem_left w = O ->
  exists w',
    run (Create count this) w =
      ([Called malloc_sem], Returns (NO_MEMORY, Semaphore_ctor) w') /\
    heap w' = heap w /\
    run (Semaphore_dtor Semaphore_ctor) w' = ([], Returns tt w').
Proof.
  intros Hc Hm. eexists. split; [apply (run_Create_no_memory count this w Hc Hm) |].
  split; reflexivity.
Qed.

(** X4: [Create] on an object that is already ready does not release the
    semaphore it holds: the handle moves to a new block, no [sem_destroy]
    or [free] is called, and the old block keeps its semaphore. *)
Theorem Create_twice_leaks (count : Z) (this : Semaphore) (w : world) (n : nat)
    (p : addr) (v : Z) :
  0 <= count <= SEM_VALUE_MAX ->
  mem_left w = S n ->
  mSemaphore this = Some p ->
  heap w !! p = Some (Sem v) ->
  exists p' w',
    run (Create count this) w =
      ([Called malloc_sem; Called (sem_init p' 0 count)],
       Returns (posixToAndroidError 0, {| mSemaphore := Some p' |}) w') /\
    p' <> p /\
    heap w' !! p = Some (Sem v) /\
    heap w' !! p' = Some (Sem count).
Proof.
  intros [Hlo Hhi] Hm Hp Hv.
  pose proof (run_Create_allocated count this w n Hlo Hm) as Hc. cbn zeta in Hc.
  destruct (Z.leb_spec count SEM_VALUE_MAX) as [_ | Hlt]; [| lia].
  assert (Hne : fresh (dom (heap w)) <> p).
  { intros Heq. pose proof (fresh_block_unmapped w) as Hf.
    rewrite Heq in Hf. congruence. }
  do 2 eexists. split; [exact Hc | split; [exact Hne | split]].
  - cbn. rewrite !lookup_insert_ne by exact Hne. exact Hv.
  - cbn. apply lookup_insert_eq.
Qed.

(** *** What the calls other than [Create] leave alone *)

(** X5: [Wait], [Signal], [Count] and [WaitTimeout] never change the handle and
    never allocate or free: when one of them returns, the object is the
    same, the set of allocated blocks is the same and so is the memory
    left. *)
Theorem only_Create_changes_handle (o : op) (this this' : Semaphore)
    (w w' : world) (tr : list native_call) (r : Z) :
  (forall count, o <> OpCreate count) ->
  run (perform o this) w = (tr, Returns (r, this') w') ->
  this' = this /\ dom (heap w') = dom (heap w) /\ mem_left w' = mem_left w.
Proof.
  intros Hne Hrun.
  destruct o as [count | | | | t]; [destruct (Hne count eq_refl) | | | |];
    cbn [perform] in Hrun;
    unfold Wait, Signal, Count, WaitTimeout in Hrun;
    destruct (mSemaphore this) as [p |];
    split_native Hrun; injection Hrun as _ _ <- <-;
    repeat split; cbn;
    try (apply dom_insert_lookup_L; rewrite Hv; eexists; reflexivity).
Qed.

(** X6: No call touches a block other than the one behind the handle the
    object has when the call returns. *)
Theorem calls_touch_own_block_only (o : op) (this this' : Semaphore)
    (w w' : world) (tr : list native_call) (r : Z) (q : addr) :
  run (perform o this) w = (tr, Returns (r, this') w') ->
  mSemaphore this' <> Some q ->
  heap w' !! q = heap w !! q.
Proof.
  intros Hrun Hq.
  destruct o as [count | | | | t]; cbn [perform] in Hrun.
  - destruct (Z.ltb_spec count 0) as [Hneg | Hpos].
    + unfold Create in Hrun. apply Z.ltb_lt in Hneg. rewrite Hneg in Hrun.
      injection Hrun as _ _ _ <-. reflexivity.
    + destruct (mem_left w) as [| n] eqn:Hm.
      * rewrite (run_Create_no_memory count this w Hpos Hm) in Hrun.
        injection Hrun as _ _ _ <-. reflexivity.
      * rewrite (run_Create_allocated count this w n Hpos Hm) in Hrun.
        destruct (count <=? SEM_VALUE_MAX); injection Hrun as _ _ <- <-;
          cbn in *; rewrite !lookup_insert_ne by congruence; reflexivity.
  - unfold Wait in Hrun. destruct (mSemaphore this) as [p |] eqn:Hp;
      split_native Hrun; injection Hrun as _ _ <- <-; cbn;
      rewrite ?lookup_insert_ne by congruence; reflexivity.
  - unfold Signal in Hrun. destruct (mSemaphore this) as [p |] eqn:Hp;
      split_native Hrun; injection Hrun as _ _ <- <-; cbn;
      rewrite ?lookup_insert_ne by congruence; reflexivity.
  - unfold Count in Hrun. destruct (mSemaphore this) as [p |] eqn:Hp;
      split_native Hrun; injection Hrun as _ _ <- <-; reflexivity.
  - unfold WaitTimeout in Hrun. destruct (mSemaphore this) as [p |] eqn:Hp;
      split_native Hrun; injection Hrun as _ _ <- <-; cbn;
      rewrite ?lookup_insert_ne by congruence; reflexivity.
Qed.

(** X7: The methods translate the return code of the native call, which is -1
    for every failure, and never read errno: when [Wait], [Signal] or
    [WaitTimeout] returns on a non-NULL handle, the status is either the
    translation of 0, or the translation of -1 whatever the cause
    (interrupted, overflow, invalid deadline, timed out), and in the
    second case no semaphore has changed. *)
Theorem native_failures_share_one_status (o : op) (this this' : Semaphore)
    (w w' : world) (tr : list native_call) (r : Z) (p : addr) :
  (o = OpWait \/ o = OpSignal \/ exists t, o = OpWaitTimeout t) ->
  mSemaphore this = Some p ->
  run (perform o this) w = (tr, Returns (r, this') w') ->
  (r = posixToAndroidError 0 /\ errno w' = errno w) \/
  (r = posixToAndroidError (-1) /\ heap w' = heap w /\
   In (errno w') [EINTR; EOVERFLOW; EINVAL; ETIMEDOUT]).
Proof.
  intros Ho Hp Hrun.
  destruct Ho as [-> | [-> | [t ->]]]; cbn [perform] in Hrun;
    unfold Wait, Signal, WaitTimeout in Hrun; rewrite Hp in Hrun;
    split_native Hrun; injection Hrun as _ <- _ <-;
    first [ left; split; reflexivity
          | right; split; [reflexivity | split; [reflexivity | cbn; tauto]] ].
Qed.

(** *** Edge cases of the waits and of [Signal] *)

(** X8: [Wait] with the value at zero: in one thread the call does not return,
    unless a signal interrupts it; then the status is the translation of
    -1, the semaphore is unchanged and errno is EINTR. *)
Theorem Wait_at_zero (this : Semaphore) (p : addr) (v : Z) (w : world) :
  mSemaphore this = Some p ->
  heap w !! p = Some (Sem v) ->
  v <= 0 ->
  run (Wait this) w =
    if pending_signal w
    then ([Called (sem_wait p)],
          Returns (posixToAndroidError (-1), this) (take_signal w))
    else ([Called (sem_wait p)], Blocks).
Proof.
  intros Hp Hv Hz. unfold Wait. rewrite Hp. cbn. rewrite Hv.
  destruct (Z.ltb_spec 0 v); [lia |].
  destruct (pending_signal w); reflexivity.
Qed.

(** X9: [Signal] with the value at [SEM_VALUE_MAX]: the value does not wrap and
    does not change; the status is the translation of -1. *)
Theorem Signal_at_max (this : Semaphore) (p : addr) (v : Z) (w : world) :
  mSemaphore this = Some p ->
  heap w !! p = Some (Sem v) ->
  SEM_VALUE_MAX <= v ->
  run (Signal this) w =
    ([Called (sem_post p)],
     Returns (posixToAndroidError (-1), this) (set_errno EOVERFLOW w)) /\
  sem_value (set_errno EOVERFLOW w) this = Some v.
Proof.
  intros Hp Hv Hmax. split.
  - unfold Signal. rewrite Hp. cbn. rewrite Hv.
    destruct (Z.ltb_spec v SEM_VALUE_MAX); [lia | reflexivity].
  - unfold sem_value. rewrite Hp. cbn. rewrite Hv. reflexivity.
Qed.

(** X10: [WaitTimeout] with the value above zero and a timeout whose
    [timespec] has its nanoseconds in range (every non-negative timeout,
    every whole number of seconds) takes a unit at once and succeeds,
    whether the C library checks the deadline before or after it tries to
    take the unit; the clock does not advance. *)
Theorem WaitTimeout_available (t : Z) (this : Semaphore) (p : addr) (v : Z)
    (w : world) :
  mSemaphore this = Some p ->
  heap w !! p = Some (Sem v) ->
  0 < v ->
  valid_nsec (timeSpec_of t) = true ->
  run (WaitTimeout t this) w =
    ([Called (sem_timedwait p (timeSpec_of t))],
     Returns (posixToAndroidError 0, this)
       (set_heap (<[p := Sem (v - 1)]> (heap w)) w)).
Proof.
  intros Hp Hv Hpos Hvalid. unfold WaitTimeout. rewrite Hp. cbn. rewrite Hv, Hvalid.
  cbn. rewrite andb_false_r.
  destruct (Z.ltb_spec 0 v); [reflexivity | lia].
Qed.

(** X11: The [timespec] of [WaitTimeout] has its nanoseconds in the range that
    [sem_timedwait] accepts exactly when the timeout is non-negative or a
    whole number of seconds. *)
Theorem timeSpec_of_valid_iff (t : Z) :
  is_int t ->
  valid_nsec (timeSpec_of t) = true <-> 0 <= t \/ Z.rem t 1000000 = 0.
Proof.
  intros Ht. rewrite (timeSpec_of_exact t Ht). unfold valid_nsec. cbn [tv_nsec].
  rewrite andb_true_iff, Z.leb_le, Z.ltb_lt.
  destruct (quot_million_bounds t Ht) as [_ Hr].
  Z.quot_rem_to_equations. lia.
Qed.

(** X12: [WaitTimeout] with a negative timeout on a semaphore at zero fails at
    once with the translation of -1: the native call rejects the negative
    nanoseconds (EINVAL), or, for a whole number of seconds, finds the
    deadline before the Epoch (ETIMEDOUT).  Semaphore and clock are
    unchanged. *)
Theorem WaitTimeout_negative_timeout (t : Z) (this : Semaphore) (p : addr)
    (w : world) :
  is_int t ->
  t < 0 ->
  mSemaphore this = Some p ->
  heap w !! p = Some (Sem 0) ->
  0 <= tv_sec (now w) ->
  run (WaitTimeout t this) w =
    ([Called (sem_timedwait p (timeSpec_of t))],
     Returns (posixToAndroidError (-1), this)
       (set_errno (if Z.rem t 1000000 =? 0 then ETIMEDOUT else EINVAL) w)).
Proof.
  intros Hint Hneg Hp Hv Hnow.
  pose proof (timeSpec_of_exact t Hint) as Hts.
  destruct (quot_million_bounds t Hint) as [Hq Hr].
  unfold WaitTimeout. rewrite Hp. cbn. rewrite Hv. cbn.
  destruct (Z.eqb_spec (Z.rem t 1000000) 0) as [Hrem | Hrem].
  - replace (valid_nsec (timeSpec_of t)) with true.
    2:{ symmetry. rewrite Hts. unfold valid_nsec. cbn [tv_nsec].
        apply andb_true_iff. split; [apply Z.leb_le | apply Z.ltb_lt];
          Z.quot_rem_to_equations; lia. }
    replace (timespec_leb (timeSpec_of t) (now w)) with true.
    2:{ symmetry. unfold timespec_leb. apply orb_true_iff. left.
        apply Z.ltb_lt. rewrite Hts. cbn [tv_sec].
        Z.quot_rem_to_equations. lia. }
    cbn. rewrite andb_false_r. reflexivity.
  - replace (valid_nsec (timeSpec_of t)) with false.
    2:{ symmetry. rewrite Hts. unfold valid_nsec. cbn [tv_nsec].
        apply andb_false_iff. left. apply Z.leb_gt.
        Z.quot_rem_to_equations. lia. }
    destruct timedwait_validates_first; reflexivity.
Qed.

(** *** Sequences of calls *)

Lemma run_script_cons (o : op) (ops : list op) (this : Semaphore) (w : world) :
  run (script (o :: ops) this) w =
    match run (perform o this) w with
    | (tr, Returns r w1) =>
        match run (script ops r.2) w1 with
        | (tr', Returns rs w2) => (tr ++ tr', Returns (r.1 :: rs.1, rs.2) w2)
        | (tr', Blocks) => (tr ++ tr', Blocks)
        | (tr', Undefined) => (tr ++ tr', Undefined)
        end
    | (tr, Blocks) => (tr, Blocks)
    | (tr, Undefined) => (tr, Undefined)
    end.
Proof.
  cbn [script]. unfold mbind, prog_bind. rewrite run_bind.
  destruct (run (perform o this) w) as [tr [r w1 | |]]; try reflexivity.
  rewrite run_bind.
  destruct (run (script ops r.2) w1) as [tr' [rs w2 | |]]; try reflexivity.
  cbn. rewrite app_nil_r. reflexivity.
Qed.

Lemma run_script_app (ops1 ops2 : list op) (this : Semaphore) (w : world) :
  run (script (ops1 ++ ops2) this) w =
    match run (script ops1 this) w with
    | (tr, Returns rs w1) =>
        match run (script ops2 rs.2) w1 with
        | (tr', Returns rs' w2) => (tr ++ tr', Returns (rs.1 ++ rs'.1, rs'.2) w2)
        | (tr', Blocks) => (tr ++ tr', Blocks)
        | (tr', Undefined) => (tr ++ tr', Undefined)
        end
    | (tr, Blocks) => (tr, Blocks)
    | (tr, Undefined) => (tr, Undefined)
    end.
Proof.
  revert this w. induction ops1 as [| o ops1 IH]; intros this w.
  - cbn [app]. cbn [script run mret prog_ret fst snd app].
    destruct (run (script ops2 this) w) as [tr' [[rs' this'] w2 | |]]; reflexivity.
  - rewrite <- app_comm_cons, !run_script_cons.
    destruct (run (perform o this) w) as [tr [r w1 | |]]; try reflexivity.
    rewrite IH.
    destruct (run (script ops1 r.2) w1) as [tr1 [rs1 w2 | |]]; try reflexivity.
    cbn [fst snd].
    destruct (run (script ops2 rs1.2) w2) as [tr2 [rs2 w3 | |]];
      rewrite app_assoc; reflexivity.
Qed.

(** [n] calls of [Signal] below the maximum add [n] to the value. *)
Lemma run_signals (this : Semaphore) (p : addr) (n : nat) (v : Z) (w : world) :
  mSemaphore this = Some p ->
  heap w !! p = Some (Sem v) ->
  v + Z.of_nat n <= SEM_VALUE_MAX ->
  run (script (repeat OpSignal n) this) w =
    (repeat (Called (sem_post p)) n,
     Returns (repeat (posixToAndroidError 0) n, this)
       (set_heap (<[p := Sem (v + Z.of_nat n)]> (heap w)) w)).
Proof.
  intros Hp. revert v w. induction n as [| n IH]; intros v w Hv Hmax.
  - cbn. rewrite Z.add_0_r, (insert_id _ _ _ Hv), set_heap_same. reflexivity.
  - cbn [repeat]. rewrite run_script_cons. cbn [perform].
    rewrite (run_Signal_below_max this p v w Hp Hv) by lia. cbn [fst snd].
    rewrite (IH (v + 1)); [| cbn; apply lookup_insert_eq | lia].
    cbn. rewrite insert_insert_eq.
    replace (v + 1 + Z.of_nat n) with (v + Z.pos (Pos.of_succ_nat n)) by lia.
    reflexivity.
Qed.

(** [n] calls of [Wait] on a value of at least [n] take [n] from it. *)
Lemma run_waits (this : Semaphore) (p : addr) (n : nat) (v : Z) (w : world) :
  mSemaphore this = Some p ->
  heap w !! p = Some (Sem v) ->
  Z.of_nat n <= v ->
  run (script (repeat OpWait n) this) w =
    (repeat (Called (sem_wait p)) n,
     Returns (repeat (posixToAndroidError 0) n, this)
       (set_heap (<[p := Sem (v - Z.of_nat n)]> (heap w)) w)).
Proof.
  intros Hp. revert v w. induction n as [| n IH]; intros v w Hv Hmax.
  - cbn. rewrite Z.sub_0_r, (insert_id _ _ _ Hv), set_heap_same. reflexivity.
  - cbn [repeat]. rewrite run_script_cons. cbn [perform].
    rewrite (run_Wait_available this p v w Hp Hv) by lia. cbn [fst snd].
    rewrite (IH (v - 1)); [| cbn; apply lookup_insert_eq | lia].
    cbn. rewrite insert_insert_eq.
    replace (v - 1 - Z.of_nat n) with (v - Z.pos (Pos.of_succ_nat n)) by lia.
    reflexivity.
Qed.

(** X13: In one thread, [n] calls of [Signal] followed by [n] calls of [Wait] on
    a ready semaphore with room for [n] more units all succeed, make
    exactly [n] [sem_post] and then [n] [sem_wait] calls, and leave the
    world as it was. *)
Theorem signals_then_waits_round_trip (this : Semaphore) (p : addr) (n : nat)
    (v : Z) (w : world) :
  mSemaphore this = Some p ->
  heap w !! p = Some (Sem v) ->
  0 <= v ->
  v + Z.of_nat n <= SEM_VALUE_MAX ->
  run (script (repeat OpSignal n ++ repeat OpWait n) this) w =
    (repeat (Called (sem_post p)) n ++ repeat (Called (sem_wait p)) n,
     Returns (repeat (posixToAndroidError 0) (n + n), this) w).
Proof.
  intros Hp Hv Hlo Hhi.
  rewrite run_script_app, (run_signals this p n v w Hp Hv Hhi). cbn [fst snd].
  rewrite (run_waits this p n (v + Z.of_nat n)); [| exact Hp | apply lookup_insert_eq | lia].
  cbn [fst snd heap set_heap]. rewrite insert_insert_eq.
  replace (v + Z.of_nat n - Z.of_nat n) with v by lia.
  rewrite (insert_id _ _ _ Hv), repeat_app.
  replace (set_heap (heap w) (set_heap (<[p := Sem (v + Z.of_nat n)]> (heap w)) w))
    with w by (destruct w; reflexivity).
  reflexivity.
Qed.

(** X14: One [Wait] more than the value [n]: the first [n] calls take the units and
    the last one does not return. *)
Theorem one_Wait_too_many_blocks (this : Semaphore) (p : addr) (n : nat)
    (w : world) :
  mSemaphore this = Some p ->
  heap w !! p = Some (Sem (Z.of_nat n)) ->
  pending_signal w = false ->
  run (script (repeat OpWait n ++ [OpWait]) this) w =
    (repeat (Called (sem_wait p)) n ++ [Called (sem_wait p)], Blocks).
Proof.
  intros Hp Hv Hsig.
  rewrite run_script_app, (run_waits this p n (Z.of_nat n) w Hp Hv) by lia.
  cbn [fst snd]. rewrite run_script_cons. cbn [perform].
  unfold Wait. rewrite Hp. cbn. rewrite lookup_insert_eq, Z.sub_diag. cbn.
  rewrite Hsig. reflexivity.
Qed.

(** X15: [Count] can be put in front of any sequence of calls without changing
    what the sequence does: on an object that satisfies the handle
    invariant, the statuses, the final object and the final world are
    those of the sequence alone, with the count read first. *)
Theorem Count_does_not_disturb (ops : list op) (this : Semaphore) (w : world) :
  handle_ok w this ->
  run (script (OpCount :: ops) this) w =
    let probe :=
      match mSemaphore this with
      | Some p => [Called (sem_getvalue p)]
      | None => []
      end in
    let c := match sem_value w this with Some v => v | None => BAD_VALUE end in
    match run (script ops this) w with
    | (tr, Returns rs w') => (probe ++ tr, Returns (c :: rs.1, rs.2) w')
    | (tr, Blocks) => (probe ++ tr, Blocks)
    | (tr, Undefined) => (probe ++ tr, Undefined)
    end.
Proof.
  intros Hok. rewrite run_script_cons. cbn [perform].
  unfold Count, handle_ok, sem_value in *.
  destruct (mSemaphore this) as [p |].
  - destruct Hok as [v Hv]. cbn. rewrite Hv. cbn.
    destruct (run (script ops this) w) as [tr [rs w' | |]]; reflexivity.
  - cbn. destruct (run (script ops this) w) as [tr [rs w' | |]]; reflexivity.
Qed.

(** X16: Any sequence of calls that returns keeps the handle invariant, as long
    as no [Create] in it asks for more than [SEM_VALUE_MAX]; it yields one
    status per call. *)
Theorem script_keeps_handle_ok (ops : list op) (this this' : Semaphore)
    (w w' : world) (tr : list native_call) (rs : list Z) :
  handle_ok w this ->
  Forall (fun o => forall count, o = OpCreate count -> count <= SEM_VALUE_MAX) ops ->
  run (script ops this) w = (tr, Returns (rs, this') w') ->
  handle_ok w' this' /\ length rs = length ops.
Proof.
  revert this this' w w' tr rs.
  induction ops as [| o ops IH]; intros this this' w w' tr rs Hok Hall Hrun.
  - cbn in Hrun. injection Hrun as _ <- <- <-. split; [exact Hok | reflexivity].
  - rewrite run_script_cons in Hrun.
    apply Forall_cons_1 in Hall as [Ho Hall].
    destruct (run (perform o this) w) as [tr1 [[r this1] w1 | |]] eqn:Hone;
      try discriminate Hrun.
    pose proof (handle_ok_preserved o this this1 w w1 tr1 r Hok Ho Hone) as Hok1.
    cbn [fst snd] in Hrun.
    destruct (run (script ops this1) w1) as [tr2 [[rs2 this2] w2 | |]] eqn:Hrest;
      try discriminate Hrun.
    destruct (IH this1 this2 w1 w2 tr2 rs2 Hok1 Hall Hrest) as [Hok2 Hlen].
    cbn [fst snd] in Hrun. injection Hrun as _ <- <- <-.
    split; [exact Hok2 | cbn; rewrite Hlen; reflexivity].
Qed.

End Lifecycle.

(** ** On Android *)

#[local] Existing Instance android_arm.

Lemma translate_or_unknown_success (rc : Z) :
  translate_or_unknown rc = 0 -> rc = 0.
Proof.
  unfold translate_or_unknown, UNKNOWN_ERROR. intros Hrc.
  destruct (Z.eqb_spec rc 0); [assumption | discriminate].
Qed.

(** C3: the claim does not hold of the code.  One [Create] whose count
    exceeds bionic's [SEM_VALUE_MAX] takes a fresh object to a state in
    which the handle is present and the block behind it was never
    initialised. *)
Theorem partially_constructed_state_reachable :
  exists (this : Semaphore) (w : world) (p : addr),
    @reachable android_arm boot this w /\
    mSemaphore this = Some p /\
    heap w !! p = Some Raw /\
    ~ handle_ok w this.
Proof.
  exists {| mSemaphore := Some 1%positive |}.
  exists (set_errno EINVAL (set_mem_left 1 (set_heap {[ 1%positive := Raw ]} boot))).
  exists 1%positive.
  split; [| split; [reflexivity | split; [reflexivity |]]].
  - apply (@reach_call android_arm boot Semaphore_ctor boot (OpCreate 1073741824)
             [Called malloc_sem; Called (sem_init 1%positive 0 1073741824)]
             (@posixToAndroidError android_arm (-1))).
    + apply reach_ctor.
    + reflexivity.
  - intros [v Hv]. vm_compute in Hv. discriminate Hv.
Qed.

(** The state after the failed [Create] is one a caller can reach. *)
Lemma half_built_reachable : reachable boot ready_at_1 half_built.
Proof.
  apply (@reach_call android_arm boot Semaphore_ctor boot (OpCreate 1073741824)
           [Called malloc_sem; Called (sem_init 1%positive 0 1073741824)]
           UNKNOWN_ERROR).
  - apply reach_ctor.
  - reflexivity.
Qed.

(** C4: the claim does not hold of the code.  After [Create(0x40000000)]
    has failed in [sem_init], the object is not ready (the block behind its
    handle holds no semaphore) but its handle is not NULL: [Wait], [Signal]
    and [WaitTimeout] pass their NULL check and make their native call on
    that block instead of returning [BAD_VALUE]. *)
Theorem guards_pass_after_failed_Create :
  reachable boot ready_at_1 half_built /\
  heap half_built !! 1%positive = Some Raw /\
  ~ handle_ok half_built ready_at_1 /\
  Wait ready_at_1 =
    Vis (sem_wait 1%positive) (fun rc => Ret (posixToAndroidError rc, ready_at_1)) /\
  Signal ready_at_1 =
    Vis (sem_post 1%positive) (fun rc => Ret (posixToAndroidError rc, ready_at_1)) /\
  (forall t, WaitTimeout t ready_at_1 =
     Vis (sem_timedwait 1%positive (timeSpec_of t))
       (fun rc => Ret (posixToAndroidError rc, ready_at_1))) /\
  run (Wait ready_at_1) half_built = ([Called (sem_wait 1%positive)], Undefined) /\
  run (Signal ready_at_1) half_built = ([Called (sem_post 1%positive)], Undefined) /\
  (forall t, run (WaitTimeout t ready_at_1) half_built =
     ([Called (sem_timedwait 1%positive (timeSpec_of t))], Undefined)).
Proof.
  split; [exact half_built_reachable |].
  split; [reflexivity |].
  split; [intros [v Hv]; vm_compute in Hv; discriminate Hv |].
  repeat split; intros; reflexivity.
Qed.

(** C8: the first half of the claim does not hold of the code.  On the
    same non-ready object [Count] passes its NULL check and calls
    [sem_getvalue] on the uninitialised block; what it returns is whatever
    that call leaves in [val], not the [BAD_VALUE] sentinel. *)
Theorem Count_after_failed_Create :
  reachable boot ready_at_1 half_built /\
  heap half_built !! 1%positive = Some Raw /\
  ~ handle_ok half_built ready_at_1 /\
  Count ready_at_1 =
    Vis (sem_getvalue 1%positive) (fun val => Ret (val, ready_at_1)) /\
  run (Count ready_at_1) half_built =
    ([Called (sem_getvalue 1%positive)], Undefined).
Proof.
  split; [exact half_built_reachable |].
  split; [reflexivity |].
  split; [intros [v Hv]; vm_compute in Hv; discriminate Hv |].
  split; reflexivity.
Qed.

(** What the other methods and the destructor do in the state that
    [Create(0x40000000)] leaves behind: the NULL checks pass, and the native
    calls are made on a block that holds no semaphore. *)
Example Create_too_large_leaves_half_built :
  run (Create 1073741824 Semaphore_ctor) boot =
    ([Called malloc_sem; Called (sem_init 1%positive 0 1073741824)],
     Returns (UNKNOWN_ERROR, ready_at_1) half_built).
Proof. reflexivity. Qed.

Example Wait_on_half_built :
  run (Wait ready_at_1) half_built = ([Called (sem_wait 1%positive)], Undefined).
Proof. reflexivity. Qed.

Example Wait_at_zero_blocks :
  run (Wait ready_at_1) (world_with 0) = ([Called (sem_wait 1%positive)], Blocks).
Proof. reflexivity. Qed.

(** Where [sem_timedwait] checks the deadline first, a timeout with
    negative nanoseconds is refused even though a unit is there. *)
Example WaitTimeout_refused_when_validated_first :
  @run validating_host _ (@WaitTimeout validating_host (-5) ready_at_1) (world_with 2) =
    ([Called (sem_timedwait 1%positive (timeSpec_of (-5)))],
     Returns (UNKNOWN_ERROR, ready_at_1) (set_errno EINVAL (world_with 2))).
Proof. reflexivity. Qed.

Example dtor_on_half_built :
  run (Semaphore_dtor ready_at_1) half_built =
    ([Called (sem_destroy 1%positive)], Undefined).
Proof. reflexivity. Qed.

(** *** The theorems at concrete inputs *)

(** [WaitTimeout(500000)] at 1300000000 s on a semaphore at zero: the
    [timespec] passed is half a second after the Epoch. *)
Lemma WaitTimeout_passes_relative_time_witness :
  run (WaitTimeout 500000 ready_at_1) (world_with 0) =
    ([Called (sem_timedwait 1%positive (timeSpec_of 500000))],
     Returns (UNKNOWN_ERROR, ready_at_1) (set_errno ETIMEDOUT (world_with 0))) /\
  tv_sec (timeSpec_of 500000) < 1300000000
    <= tv_sec (deadline_after (now (world_with 0)) 500000) /\
  timeSpec_of 500000 <> deadline_after (now (world_with 0)) 500000.
Proof.
  apply (@WaitTimeout_passes_relative_time android_arm 500000 ready_at_1
           1%positive (world_with 0)).
  - unfold is_int, INT_MIN, INT_MAX. lia.
  - lia.
  - reflexivity.
  - reflexivity.
  - reflexivity.
  - simpl. lia.
Defined.

(** [Create(0x40000000)] on a fresh object. *)
Lemma Create_sem_init_failure_witness :
  exists (p : addr) (w' : world),
    run (Create 1073741824 Semaphore_ctor) boot =
      ([Called malloc_sem; Called (sem_init p 0 1073741824)],
       Returns (UNKNOWN_ERROR, {| mSemaphore := Some p |}) w') /\
    heap boot !! p = None /\
    heap w' !! p = Some Raw.
Proof.
  apply (@Create_sem_init_failure android_arm 1073741824 Semaphore_ctor boot 1%nat).
  - lia.
  - simpl. lia.
  - reflexivity.
Defined.

(** The three guarded methods on a fresh object. *)
Lemma not_ready_returns_at_once_witness :
  (Wait Semaphore_ctor = Ret (-22, Semaphore_ctor) /\
   Signal Semaphore_ctor = Ret (-22, Semaphore_ctor) /\
   WaitTimeout 1000 Semaphore_ctor = Ret (-22, Semaphore_ctor)) /\
  run (Wait Semaphore_ctor) boot = ([], Returns (-22, Semaphore_ctor) boot) /\
  run (Signal Semaphore_ctor) boot = ([], Returns (-22, Semaphore_ctor) boot) /\
  run (WaitTimeout 1000 Semaphore_ctor) boot = ([], Returns (-22, Semaphore_ctor) boot).
Proof.
  apply (@not_ready_returns_at_once android_arm Semaphore_ctor 1000 boot).
  reflexivity.
Defined.

(** [Create(-1)] followed by [Count()] on a fresh object. *)
Lemma Create_negative_count_witness :
  Create (-1) Semaphore_ctor = Ret (-22, Semaphore_ctor) /\
  run (Create (-1) Semaphore_ctor) boot = ([], Returns (-22, Semaphore_ctor) boot) /\
  run (r ← Create (-1) Semaphore_ctor; Count r.2) boot =
    ([], Returns (-22, Semaphore_ctor) boot).
Proof.
  apply (@Create_negative_count android_arm (-1) Semaphore_ctor boot).
  - lia.
  - reflexivity.
Defined.

(** [Create(3)] followed by [Count()]. *)
Lemma Create_then_Count_witness :
  exists p : addr,
    mSemaphore ready_at_1 = Some p /\
    run (Count ready_at_1) (set_mem_left 1 (world_with 3)) =
      ([Called (sem_getvalue p)], Returns (3, ready_at_1) (set_mem_left 1 (world_with 3))).
Proof.
  apply (@Create_then_Count android_arm 3 Semaphore_ctor ready_at_1 boot
           (set_mem_left 1 (world_with 3))
           [Called malloc_sem; Called (sem_init 1%positive 0 3)]).
  - lia.
  - simpl. lia.
  - exact translate_or_unknown_success.
  - reflexivity.
Defined.

(** The round trip from the boot world. *)
Lemma round_trip_witness :
  exists (this : Semaphore) (p : addr) (w1 w2 w3 w4 : world),
    run (Create 1 Semaphore_ctor) boot =
      ([Called malloc_sem; Called (sem_init p 0 1)], Returns (0, this) w1) /\
    sem_value w1 this = Some 1 /\
    run (Wait this) w1 = ([Called (sem_wait p)], Returns (0, this) w2) /\
    sem_value w2 this = Some 0 /\
    run (Signal this) w2 = ([Called (sem_post p)], Returns (0, this) w3) /\
    sem_value w3 this = Some 1 /\
    run (Wait this) w3 = ([Called (sem_wait p)], Returns (0, this) w4) /\
    sem_value w4 this = Some 0.
Proof.
  apply (@round_trip android_arm boot 1%nat).
  - reflexivity.
  - simpl. lia.
  - reflexivity.
Defined.

(** [Count()] on a fresh object, and on a ready one whose native value goes
    from 5 to 6. *)
Lemma Count_sentinel_or_live_witness :
  run (Count Semaphore_ctor) boot = ([], Returns (-22, Semaphore_ctor) boot) /\
  run (Count ready_at_1) (world_with 5) =
    ([Called (sem_getvalue 1%positive)], Returns (5, ready_at_1) (world_with 5)) /\
  run (Count ready_at_1) (world_with 6) =
    ([Called (sem_getvalue 1%positive)], Returns (6, ready_at_1) (world_with 6)).
Proof.
  split.
  - apply (@Count_sentinel_or_live android_arm Semaphore_ctor boot 1%positive 0 0).
    reflexivity.
  - apply (@Count_sentinel_or_live android_arm ready_at_1 (world_with 5) 1%positive 5 6);
      reflexivity.
Defined.

(** [WaitTimeout(-1500000)] on a ready object. *)
Lemma WaitTimeout_timespec_witness :
  let ts := timeSpec_of (-1500000) in
  tv_sec ts = Z.quot (-1500000) 1000000 /\
  tv_nsec ts = (-1500000 - tv_sec ts * 1000000) * 1000 /\
  tv_sec ts * 1000000000 + tv_nsec ts = -1500000 * 1000 /\
  WaitTimeout (-1500000) ready_at_1 =
    Vis (sem_timedwait 1%positive ts)
      (fun rc => Ret (posixToAndroidError rc, ready_at_1)) /\
  (forall w rc w',
     native (sem_timedwait 1%positive ts) w = Answer rc w' ->
     run (WaitTimeout (-1500000) ready_at_1) w =
       ([Called (sem_timedwait 1%positive ts)],
        Returns (posixToAndroidError rc, ready_at_1) w')) /\
  (-1500000 < 0 -> tv_sec ts <= 0 /\ tv_nsec ts <= 0).
Proof.
  apply (@WaitTimeout_timespec android_arm (-1500000) ready_at_1 1%positive).
  - unfold is_int, INT_MIN, INT_MAX. lia.
  - reflexivity.
Defined.

(** *** The life-cycle theorems at concrete inputs *)

Lemma dtor_releases_own_block_witness :
  run (Semaphore_dtor Semaphore_ctor) boot = ([], Returns tt boot) /\
  exists w',
    run (Semaphore_dtor ready_at_1) two_sems =
      ([Called (sem_destroy 1%positive); Called (free_sem 1%positive)],
       Returns tt w') /\
    heap w' !! 1%positive = None /\
    (forall q, q <> 1%positive -> heap w' !! q = heap two_sems !! q) /\
    mem_left w' = mem_left two_sems.
Proof.
  split.
  - apply (@dtor_releases_own_block android_arm Semaphore_ctor boot 1%positive 0).
    reflexivity.
  - apply (@dtor_releases_own_block android_arm ready_at_1 two_sems 1%positive 5);
      reflexivity.
Defined.

Lemma Create_then_dtor_restores_heap_witness :
  exists (p : addr) (this' : Semaphore) (w1 w2 : world),
    run (Create 3 Semaphore_ctor) two_sems =
      ([Called malloc_sem; Called (sem_init p 0 3)], Returns (0, this') w1) /\
    run (Semaphore_dtor this') w1 =
      ([Called (sem_destroy p); Called (free_sem p)], Returns tt w2) /\
    heap w2 = heap two_sems.
Proof.
  apply (@Create_then_dtor_restores_heap android_arm 3 Semaphore_ctor two_sems 1%nat).
  - simpl. lia.
  - reflexivity.
Defined.

Lemma Create_out_of_memory_witness :
  exists w',
    run (Create 3 ready_at_1) (set_mem_left 0 two_sems) =
      ([Called malloc_sem], Returns (-12, Semaphore_ctor) w') /\
    heap w' = heap (set_mem_left 0 two_sems) /\
    run (Semaphore_dtor Semaphore_ctor) w' = ([], Returns tt w').
Proof.
  apply (@Create_out_of_memory android_arm 3 ready_at_1 (set_mem_left 0 two_sems)).
  - lia.
  - reflexivity.
Defined.

Lemma Create_twice_leaks_witness :
  exists (p' : addr) (w' : world),
    run (Create 2 ready_at_1) (world_with 5) =
      ([Called malloc_sem; Called (sem_init p' 0 2)],
       Returns (0, {| mSemaphore := Some p' |}) w') /\
    p' <> 1%positive /\
    heap w' !! 1%positive = Some (Sem 5) /\
    heap w' !! p' = Some (Sem 2).
Proof.
  apply (@Create_twice_leaks android_arm 2 ready_at_1 (world_with 5) 1%nat
           1%positive 5).
  - simpl. lia.
  - reflexivity.
  - reflexivity.
  - reflexivity.
Defined.

Lemma only_Create_changes_handle_witness :
  ready_at_1 = ready_at_1 /\
  dom (heap (world_with 6)) = dom (heap (world_with 5)) /\
  mem_left (world_with 6) = mem_left (world_with 5).
Proof.
  apply (@only_Create_changes_handle android_arm OpSignal ready_at_1 ready_at_1
           (world_with 5) (world_with 6) [Called (sem_post 1%positive)] 0).
  - intros count. discriminate.
  - reflexivity.
Defined.

Lemma calls_touch_own_block_only_witness :
  heap (set_heap (<[1%positive := Sem 4]> (heap two_sems)) two_sems) !! 2%positive =
  heap two_sems !! 2%positive.
Proof.
  apply (@calls_touch_own_block_only android_arm OpWait ready_at_1 ready_at_1
           two_sems (set_heap (<[1%positive := Sem 4]> (heap two_sems)) two_sems)
           [Called (sem_wait 1%positive)] 0 2%positive).
  - reflexivity.
  - discriminate.
Defined.

Lemma native_failures_share_one_status_witness :
  (UNKNOWN_ERROR = posixToAndroidError 0 /\
   errno (set_errno ETIMEDOUT (world_with 0)) = errno (world_with 0)) \/
  (UNKNOWN_ERROR = posixToAndroidError (-1) /\
   heap (set_errno ETIMEDOUT (world_with 0)) = heap (world_with 0) /\
   In (errno (set_errno ETIMEDOUT (world_with 0))) [EINTR; EOVERFLOW; EINVAL; ETIMEDOUT]).
Proof.
  apply (@native_failures_share_one_status android_arm (OpWaitTimeout 500000)
           ready_at_1 ready_at_1 (world_with 0) (set_errno ETIMEDOUT (world_with 0))
           [Called (sem_timedwait 1%positive (timeSpec_of 500000))]
           UNKNOWN_ERROR 1%positive).
  - right. right. exists 500000. reflexivity.
  - reflexivity.
  - reflexivity.
Defined.

Lemma Wait_at_zero_witness :
  run (Wait ready_at_1) (world_with 0) =
    if pending_signal (world_with 0)
    then ([Called (sem_wait 1%positive)],
          Returns (posixToAndroidError (-1), ready_at_1) (take_signal (world_with 0)))
    else ([Called (sem_wait 1%positive)], Blocks).
Proof.
  apply (@Wait_at_zero android_arm ready_at_1 1%positive 0 (world_with 0)).
  - reflexivity.
  - reflexivity.
  - lia.
Defined.

Lemma Signal_at_max_witness :
  run (Signal ready_at_1) (world_with 1073741823) =
    ([Called (sem_post 1%positive)],
     Returns (UNKNOWN_ERROR, ready_at_1) (set_errno EOVERFLOW (world_with 1073741823))) /\
  sem_value (set_errno EOVERFLOW (world_with 1073741823)) ready_at_1 =
    Some 1073741823.
Proof.
  apply (@Signal_at_max android_arm ready_at_1 1%positive 1073741823
           (world_with 1073741823)).
  - reflexivity.
  - reflexivity.
  - simpl. lia.
Defined.

Lemma WaitTimeout_available_witness :
  run (WaitTimeout 500000 ready_at_1) (world_with 2) =
    ([Called (sem_timedwait 1%positive (timeSpec_of 500000))],
     Returns (0, ready_at_1)
       (set_heap (<[1%positive := Sem (2 - 1)]> (heap (world_with 2))) (world_with 2))).
Proof.
  apply (@WaitTimeout_available validating_host 500000 ready_at_1 1%positive 2
           (world_with 2)).
  - reflexivity.
  - reflexivity.
  - lia.
  - reflexivity.
Defined.

Lemma timeSpec_of_valid_iff_witness :
  valid_nsec (timeSpec_of (-1500000)) = true <->
  0 <= -1500000 \/ Z.rem (-1500000) 1000000 = 0.
Proof.
  apply (timeSpec_of_valid_iff (-1500000)).
  unfold is_int, INT_MIN, INT_MAX. lia.
Defined.

Lemma WaitTimeout_negative_timeout_witness :
  run (WaitTimeout (-1500000) ready_at_1) (world_with 0) =
    ([Called (sem_timedwait 1%positive (timeSpec_of (-1500000)))],
     Returns (UNKNOWN_ERROR, ready_at_1)
       (set_errno (if Z.rem (-1500000) 1000000 =? 0 then ETIMEDOUT else EINVAL)
          (world_with 0))).
Proof.
  apply (@WaitTimeout_negative_timeout android_arm (-1500000) ready_at_1 1%positive
           (world_with 0)).
  - unfold is_int, INT_MIN, INT_MAX. lia.
  - lia.
  - reflexivity.
  - reflexivity.
  - simpl. lia.
Defined.

Lemma signals_then_waits_round_trip_witness :
  run (script (repeat OpSignal 3 ++ repeat OpWait 3) ready_at_1) (world_with 0) =
    (repeat (Called (sem_post 1%positive)) 3 ++ repeat (Called (sem_wait 1%positive)) 3,
     Returns (repeat 0 (3 + 3), ready_at_1) (world_with 0)).
Proof.
  apply (@signals_then_waits_round_trip android_arm ready_at_1 1%positive 3%nat 0
           (world_with 0)).
  - reflexivity.
  - reflexivity.
  - lia.
  - simpl. lia.
Defined.

Lemma one_Wait_too_many_blocks_witness :
  run (script (repeat OpWait 2 ++ [OpWait]) ready_at_1) (world_with 2) =
    (repeat (Called (sem_wait 1%positive)) 2 ++ [Called (sem_wait 1%positive)], Blocks).
Proof.
  apply (@one_Wait_too_many_blocks android_arm ready_at_1 1%positive 2%nat
           (world_with 2)).
  - reflexivity.
  - reflexivity.
  - reflexivity.
Defined.

Lemma Count_does_not_disturb_witness :
  run (script [OpCount; OpWait] ready_at_1) (world_with 1) =
    match run (script [OpWait] ready_at_1) (world_with 1) with
    | (tr, Returns rs w') =>
        ([Called (sem_getvalue 1%positive)] ++ tr, Returns (1 :: rs.1, rs.2) w')
    | (tr, Blocks) => ([Called (sem_getvalue 1%positive)] ++ tr, Blocks)
    | (tr, Undefined) => ([Called (sem_getvalue 1%positive)] ++ tr, Undefined)
    end.
Proof.
  apply (@Count_does_not_disturb android_arm [OpWait] ready_at_1 (world_with 1)).
  exists 1. reflexivity.
Defined.

Lemma script_keeps_handle_ok_witness :
  handle_ok (set_mem_left 1 (world_with 1)) ready_at_1 /\
  length [0; 0; 0] = length [OpCreate 1; OpWait; OpSignal].
Proof.
  apply (@script_keeps_handle_ok android_arm [OpCreate 1; OpWait; OpSignal]
           Semaphore_ctor ready_at_1 boot (set_mem_left 1 (world_with 1))
           [Called malloc_sem; Called (sem_init 1%positive 0 1);
            Called (sem_wait 1%positive); Called (sem_post 1%positive)]
           [0; 0; 0]).
  - exact I.
  - repeat constructor; intros count Hc; inversion Hc; simpl; lia.
  - reflexivity.
Defined.
